(** * Fax-lang runtime ([fax_runtime.hpp]): checked pointer, checked array, println

    A shallow embedding of the three components of namespace [fax_std]
    and the properties its users rely on.

    Modelling conventions.
    - A C++ exception is a value of [exception]; a call that can throw or
      run into undefined behaviour returns an [outcome].
    - A member function that receives [this] by (possibly mutable)
      reference is a computation of the monad [M S], which threads the
      object's state [S] and keeps the state reached when an exception
      leaves the call.
    - [T*] is [ptr T]: the null pointer or the address of an object; the
      objects alive at some moment are a finite map from addresses.
    - [std::vector<T>] is the list of its elements in index order;
      [size_t] is [N] (the runtime only compares indices, it never
      computes with them, so no wrap-around can occur).
    - [std::cout] is the sequence of characters sent to it so far, under
      the default formatting state. *)

From Stdlib Require Import ZArith NArith String Ascii List DecimalString.
From stdpp Require Import base option list gmap strings.

Local Open Scope string_scope.
Local Open Scope list_scope.

(** ** Exceptions, outcomes and the object-state monad *)

(** The two classes of <stdexcept> that the runtime throws, with the
    argument of their constructor. *)
Inductive exception : Type :=
  | runtime_error (what_arg : string)
  | out_of_range (what_arg : string).

Definition what (e : exception) : string :=
  match e with
  | runtime_error w => w
  | out_of_range w => w
  end.

Inductive outcome (A : Type) : Type :=
  | Ok (a : A)
  | Throw (e : exception)
  | Undef.
Arguments Ok {A} a.
Arguments Throw {A} e.
Arguments Undef {A}.

Definition obind {A B : Type} (o : outcome A) (k : A -> outcome B) : outcome B :=
  match o with
  | Ok a => k a
  | Throw e => Throw e
  | Undef => Undef
  end.

Definition M (S A : Type) : Type := S -> outcome A * S.

Definition ret {S A : Type} (a : A) : M S A := fun s => (Ok a, s).
Definition throw {S A : Type} (e : exception) : M S A := fun s => (Throw e, s).
Definition undefined {S A : Type} : M S A := fun s => (Undef, s).
Definition this {S : Type} : M S S := fun s => (Ok s, s).
Definition assign {S : Type} (s' : S) : M S unit := fun _ => (Ok tt, s').
Definition bind {S A B : Type} (m : M S A) (k : A -> M S B) : M S B :=
  fun s =>
    match m s with
    | (Ok a, s') => k a s'
    | (Throw e, s') => (Throw e, s')
    | (Undef, s') => (Undef, s')
    end.

Declare Scope cpp_scope.
Delimit Scope cpp_scope with cpp.
Notation "x <- c1 ;; c2" := (bind c1 (fun x => c2))
  (at level 100, c1 at next level, right associativity) : cpp_scope.
Notation "c1 ;; c2" := (bind c1 (fun _ => c2))
  (at level 100, right associativity) : cpp_scope.

(** ** Pointers and the objects they point to *)

Definition loc : Type := positive.

Inductive ptr (T : Type) : Type :=
  | nullptr
  | addr (l : loc).
Arguments nullptr {T}.
Arguments addr {T} l.

(** [!p] of the source: true exactly for the null pointer. *)
Definition not_ptr {T : Type} (p : ptr T) : bool :=
  match p with
  | nullptr => true
  | addr _ => false
  end.

(** [p == nullptr]. *)
Definition ptr_is_nullptr {T : Type} (p : ptr T) : bool :=
  match p with
  | nullptr => true
  | addr _ => false
  end.

(** [*p] as an lvalue: the object designated; undefined for the null
    pointer. *)
Definition indirect {T : Type} (p : ptr T) : outcome loc :=
  match p with
  | nullptr => Undef
  | addr l => Ok l
  end.

(** Reading an object through a reference to it; undefined when the
    object is not alive. *)
Definition load {T : Type} (h : gmap loc T) (l : loc) : outcome T :=
  match h !! l with
  | Some v => Ok v
  | None => Undef
  end.

Module fax_std.

(** *** class Ptr *)

Record Ptr (T : Type) : Type := Build_Ptr { data : ptr T }.
Arguments Build_Ptr {T} data.
Arguments data {T} _.

Definition null_msg : string := "Fax-lang: Null pointer access attempt".

(** [Ptr() : data(nullptr) {}] *)
Definition Ptr_default {T : Type} : outcome (Ptr T) :=
  Ok (Build_Ptr nullptr).

(** [Ptr(T* p) : data(p) { if (!p) throw std::runtime_error(...); }]
    The member initialiser runs first, then the body on the object under
    construction; the expression yields the object only if the body
    returns. *)
Definition Ptr_ctor_body {T : Type} (p : ptr T) : M (Ptr T) unit :=
  if not_ptr p then throw (runtime_error null_msg) else ret tt.

Definition Ptr_ctor {T : Type} (p : ptr T) : outcome (Ptr T) :=
  match Ptr_ctor_body p (Build_Ptr p) with
  | (Ok _, obj) => Ok obj
  | (Throw e, _) => Throw e
  | (Undef, _) => Undef
  end.

(** [T& operator*() { return *data; }] *)
Definition op_star {T : Type} : M (Ptr T) loc :=
  (self <- this ;;
   match indirect (data self) with
   | Ok l => ret l
   | Throw e => throw e
   | Undef => undefined
   end)%cpp.

(** [T* operator->() { return data; }] *)
Definition op_arrow {T : Type} : M (Ptr T) (ptr T) :=
  (self <- this ;; ret (data self))%cpp.

(** [T* get() { return data; }] *)
Definition get {T : Type} : M (Ptr T) (ptr T) :=
  (self <- this ;; ret (data self))%cpp.

(** [bool is_null() const { return data == nullptr; }] *)
Definition is_null {T : Type} : M (Ptr T) bool :=
  (self <- this ;; ret (ptr_is_nullptr (data self)))%cpp.

(** The class declares no [operator=], so it has the implicit copy (and
    move) assignment, which assigns member by member:
    [data = other.data]. *)
Definition op_assign {T : Type} (other : Ptr T) : M (Ptr T) unit :=
  assign (Build_Ptr (data other)).

(** *** class Array : public std::vector<T> *)

(** The part of [std::vector] the class inherits and uses.  A reference
    to an element ([T&]) is its position in the vector. *)
Abbreviation vector := list (only parsing).
Abbreviation size_t := N (only parsing).
Notation "x >=? y" := (N.leb y x) (at level 70, no associativity) : N_scope.

Definition size {T : Type} (v : vector T) : size_t := N.of_nat (length v).

Definition push_back {T : Type} (x : T) : M (vector T) unit :=
  (self <- this ;; assign (self ++ [x]))%cpp.

Section Array.
Context {T : Type}.

(** The text carried by the exception of [std::vector::at] is left to
    the standard library; it may mention the index and the size. *)
Variable range_check_what : size_t -> size_t -> string.

(** [std::vector<T>::at(n)]: range-checked access. *)
Definition vector_at (n : size_t) : M (vector T) nat :=
  (self <- this ;;
   if (n >=? size self)%N
   then throw (out_of_range (range_check_what n (size self)))
   else ret (N.to_nat n))%cpp.

Abbreviation Array := (vector T) (only parsing).

Definition oob_msg : string := "Fax-lang: Array index out of bounds".

(** [using std::vector<T>::vector;] the inherited default constructor. *)
Definition Array_default : outcome Array := Ok [].

(** [Array(Iter first, Iter last) : std::vector<T>(first, last) {}]
    applied to the range holding [elems]. *)
Definition Array_range (elems : list T) : outcome Array := Ok elems.

(** [T& operator[](size_t index)] *)
Definition op_index (index : size_t) : M Array nat :=
  (self <- this ;;
   if (index >=? size self)%N
   then throw (out_of_range oob_msg)
   else vector_at index)%cpp.

(** [const T& operator[](size_t index) const] *)
Definition op_index_const (index : size_t) : M Array nat :=
  (self <- this ;;
   if (index >=? size self)%N
   then throw (out_of_range oob_msg)
   else vector_at index)%cpp.
End Array.

(** *** println *)

(** [std::cout]: the characters written so far. *)
Abbreviation ostream := string (only parsing).

(** A type is printable when [std::cout << val] is defined for it; the
    instance gives the characters that insertion writes. *)
Class Printable (T : Type) : Type := repr : T -> string.

(** One argument of a call: a value of some printable type. *)
Record arg : Type := Arg {
  arg_type : Type;
  arg_printable : Printable arg_type;
  arg_val : arg_type
}.
Arguments Arg {arg_type arg_printable} arg_val.

Definition text (a : arg) : string := @repr _ (arg_printable a) (arg_val a).

(** [std::cout << val] *)
Definition put (cout : ostream) (a : arg) : ostream := cout +:+ text a.

(** [std::cout << std::endl]: a newline (and a flush, which sends no
    character). *)
Definition newline : string := String "010"%char EmptyString.
Definition put_endl (cout : ostream) : ostream := cout +:+ newline.

(** [template<typename T> void print_item(const T& val)] *)
Definition print_item (val : arg) (cout : ostream) : ostream := put cout val.

(** [template<typename T, typename... Args> void println(T first, Args... args)]
    The pack [args] is a list; [sizeof...(args) > 0] is its being
    non-empty, and the recursive call splits it into its head and tail. *)
Fixpoint println (first : arg) (args : list arg) (cout : ostream) {struct args} : ostream :=
  let cout := put cout first in
  match args with
  | next :: rest =>
      let cout := cout +:+ " " in
      println next rest cout
  | [] => put_endl cout
  end.

(** [inline void println()] *)
Definition println_0 (cout : ostream) : ostream := put_endl cout.

End fax_std.

(** ** Uses of the runtime in generated code *)

(** Overload resolution of a call [println(a1, ..., an)]. *)
Definition call_println (actuals : list fax_std.arg) (cout : string) : string :=
  match actuals with
  | [] => fax_std.println_0 cout
  | first :: args => fax_std.println first args cout
  end.

(** Printable instances for [int] and for string literals. *)
#[export] Instance Printable_int : fax_std.Printable Z :=
  fun z => NilZero.string_of_int (Z.to_int z).
#[export] Instance Printable_cstr : fax_std.Printable string :=
  fun s => s.

Section ArrayUses.
Context {T : Type}.
Variable range_check_what : N -> N -> string.

(** Reading and writing through an element reference; undefined when
    the reference no longer designates an element. *)
Definition elem_load (r : nat) : M (list T) T :=
  (self <- this ;;
   match self !! r with
   | Some x => ret x
   | None => undefined
   end)%cpp.

Definition elem_store (r : nat) (x : T) : M (list T) unit :=
  (self <- this ;;
   if (r <? length self)%nat then assign (<[r := x]> self) else undefined)%cpp.

(** [s[i]] read as a value, on a mutable and on a const array. *)
Definition index_read (i : N) : M (list T) T :=
  (r <- fax_std.op_index range_check_what i ;; elem_load r)%cpp.

Definition index_read_const (i : N) : M (list T) T :=
  (r <- fax_std.op_index_const range_check_what i ;; elem_load r)%cpp.

(** [s[i] = x] *)
Definition index_write (i : N) (x : T) : M (list T) unit :=
  (r <- fax_std.op_index range_check_what i ;; elem_store r x)%cpp.

(** [for (x : xs) s.push_back(x);] *)
Fixpoint push_all (xs : list T) : M (list T) unit :=
  match xs with
  | [] => ret tt
  | x :: rest => (fax_std.push_back x ;; push_all rest)%cpp
  end.

(** [for (i = from; i < from + count; ++i) out.push_back(s[i]);] with
    the values read collected in order. *)
Fixpoint read_range (from : N) (count : nat) : M (list T) (list T) :=
  match count with
  | O => ret []
  | S count' =>
      (x <- index_read from ;;
       xs <- read_range (N.succ from) count' ;;
       ret (x :: xs))%cpp
  end.
End ArrayUses.

(** ** Uses of [Ptr] in generated code *)

(** [*w] read as a value, with the objects [h] alive. *)
Definition deref {T : Type} (h : gmap loc T) : M (fax_std.Ptr T) T :=
  (l <- fax_std.op_star ;;
   fun self => (load h l, self))%cpp.

(** [*p] read as a value for a raw pointer. *)
Definition raw_deref {T : Type} (h : gmap loc T) (p : ptr T) : outcome T :=
  obind (indirect p) (load h).

(** The member functions that the class declares, as calls on a [Ptr]
    object.  (The implicit assignment, [fax_std.op_assign], is not one of
    them.) *)
Inductive Ptr_call : Type := CallStar | CallArrow | CallGet | CallIsNull.

Definition Ptr_run {T : Type} (c : Ptr_call) : M (fax_std.Ptr T) unit :=
  match c with
  | CallStar => (_ <- fax_std.op_star ;; ret tt)%cpp
  | CallArrow => (_ <- fax_std.op_arrow ;; ret tt)%cpp
  | CallGet => (_ <- fax_std.get ;; ret tt)%cpp
  | CallIsNull => (_ <- fax_std.is_null ;; ret tt)%cpp
  end.

(** A sequence of such calls, one after the other on the same object. *)
Fixpoint Ptr_calls {T : Type} (cs : list Ptr_call) : M (fax_std.Ptr T) unit :=
  match cs with
  | [] => ret tt
  | c :: rest => (Ptr_run c ;; Ptr_calls rest)%cpp
  end.

(** ** Further uses of the runtime *)

(** Writing an object through a reference to it; undefined when the
    object is not alive. *)
Definition store {T : Type} (h : gmap loc T) (l : loc) (v : T) : outcome (gmap loc T) :=
  match h !! l with
  | Some _ => Ok (<[l := v]> h)
  | None => Undef
  end.

(** [*w = v], with the objects [h] alive; yields the objects afterwards. *)
Definition deref_assign {T : Type} (h : gmap loc T) (v : T) : M (fax_std.Ptr T) (gmap loc T) :=
  (l <- fax_std.op_star ;;
   fun self => (store h l v, self))%cpp.

(** [Ptr<T>(w.get())]: a second wrapper made from the pointer that [w]
    holds. *)
Definition rewrap {T : Type} : M (fax_std.Ptr T) (fax_std.Ptr T) :=
  (p <- fax_std.get ;;
   fun self => (fax_std.Ptr_ctor p, self))%cpp.

(** [print_item(a1); std::cout << " "; print_item(a2); ...;
    std::cout << std::endl;] *)
Definition print_items_spaced (first : fax_std.arg) (args : list fax_std.arg) (cout : string) : string :=
  fax_std.put_endl
    (fold_left (fun c a => fax_std.print_item a (c +:+ " ")) args
       (fax_std.print_item first cout)).

(** The number of characters in the texts of some arguments. *)
Definition text_length (actuals : list fax_std.arg) : nat :=
  sum_list (map (fun a => String.length (fax_std.text a)) actuals).

(** * Properties *)

(** ** Checked indirection *)

Section PtrFacts.
Context {T : Type}.
Implicit Types (p : ptr T) (w : fax_std.Ptr T) (h : gmap loc T).

Lemma Ptr_ctor_nullptr :
  fax_std.Ptr_ctor (@nullptr T) = Throw (runtime_error fax_std.null_msg).
Proof. reflexivity. Qed.

Lemma Ptr_ctor_addr (l : loc) :
  fax_std.Ptr_ctor (@addr T l) = Ok (fax_std.Build_Ptr (addr l)).
Proof. reflexivity. Qed.

(** Construction returns an object exactly for the non-null pointers,
    and the object holds the pointer it was given. *)
Lemma Ptr_ctor_Ok p w :
  fax_std.Ptr_ctor p = Ok w <-> p <> nullptr /\ w = fax_std.Build_Ptr p.
Proof.
  destruct p as [|l]; [rewrite Ptr_ctor_nullptr | rewrite Ptr_ctor_addr].
  - split; [discriminate | intros [Hp _]; now destruct Hp].
  - split.
    + intros [= <-]. split; [discriminate | reflexivity].
    + intros [_ ->]. reflexivity.
Qed.

Lemma Ptr_ctor_Throw p e :
  fax_std.Ptr_ctor p = Throw e <-> p = nullptr /\ e = runtime_error fax_std.null_msg.
Proof.
  destruct p as [|l]; [rewrite Ptr_ctor_nullptr | rewrite Ptr_ctor_addr].
  - split.
    + intros [= <-]. split; reflexivity.
    + intros [_ ->]. reflexivity.
  - split; [discriminate | intros [? _]; discriminate].
Qed.

(** No member function assigns to [data]: a call that returns leaves
    the object as it was. *)
Lemma Ptr_run_frame (c : Ptr_call) w o w' :
  Ptr_run c w = (o, w') -> w' = w.
Proof.
  destruct c, w as [[|l]]; cbv; intros [= _ <-]; reflexivity.
Qed.

Lemma Ptr_run_addr (c : Ptr_call) (l : loc) :
  Ptr_run c (fax_std.Build_Ptr (@addr T l)) = (Ok tt, fax_std.Build_Ptr (addr l)).
Proof. destruct c; reflexivity. Qed.

Lemma Ptr_calls_addr (cs : list Ptr_call) (l : loc) :
  Ptr_calls cs (fax_std.Build_Ptr (@addr T l)) = (Ok tt, fax_std.Build_Ptr (addr l)).
Proof.
  induction cs as [|c cs IH]; [reflexivity|].
  cbn [Ptr_calls]. unfold bind at 1. rewrite Ptr_run_addr. exact IH.
Qed.
End PtrFacts.

(** C1. Constructing a [Ptr] from a null pointer raises the null
    reference error ([std::runtime_error] with the runtime's message), and
    the construction yields no [Ptr] object: whatever object one names,
    it is not the result. *)
Theorem C1_null_construction_raises (T : Type) :
  fax_std.Ptr_ctor (@nullptr T) = Throw (runtime_error fax_std.null_msg)
  /\ (forall w : fax_std.Ptr T, fax_std.Ptr_ctor (@nullptr T) <> Ok w)
  /\ fst (fax_std.Ptr_ctor_body (@nullptr T) (fax_std.Build_Ptr nullptr))
     = Throw (runtime_error fax_std.null_msg).
Proof.
  split; [apply Ptr_ctor_nullptr|].
  split; [|reflexivity].
  intros w Hw. apply Ptr_ctor_Ok in Hw as [Hp _]. now apply Hp.
Qed.

(** C3. For a non-null pointer [r] whose referent is alive and holds
    [v], constructing a [Ptr] from [r] returns a wrapper (no error), and
    dereferencing the wrapper reads [v], leaving the wrapper as it was. *)
Theorem C3_nonnull_construct_then_deref
  (T : Type) (h : gmap loc T) (r : ptr T) (v : T) :
  r <> nullptr ->
  raw_deref h r = Ok v ->
  exists w : fax_std.Ptr T,
    fax_std.Ptr_ctor r = Ok w /\ deref h w = (Ok v, w).
Proof.
  intros Hr Hv. destruct r as [|l]; [now destruct Hr|].
  exists (fax_std.Build_Ptr (addr l)). split; [apply Ptr_ctor_addr|].
  cbn in Hv. unfold deref, bind, fax_std.op_star, this, ret. cbn.
  now rewrite Hv.
Qed.

Lemma C3_witness :
  exists w : fax_std.Ptr Z,
    fax_std.Ptr_ctor (addr 1%positive) = Ok w
    /\ deref {[ 1%positive := 42%Z ]} w = (Ok 42%Z, w).
Proof.
  apply (C3_nonnull_construct_then_deref Z {[ 1%positive := 42%Z ]} (addr 1%positive) 42%Z).
  - discriminate.
  - reflexivity.
Defined.

(** C8. Default construction of a [Ptr] returns an object (it raises
    nothing, although the object holds the null pointer); an error comes
    out of construction only on the pointer-taking path, and there
    exactly for the null pointer. *)
Theorem C8_default_construction_succeeds (T : Type) :
  @fax_std.Ptr_default T = Ok (fax_std.Build_Ptr nullptr)
  /\ (forall e : exception, @fax_std.Ptr_default T <> Throw e)
  /\ @fax_std.Ptr_default T <> Undef
  /\ (forall (p : ptr T) (e : exception),
        fax_std.Ptr_ctor p = Throw e <->
        p = nullptr /\ e = runtime_error fax_std.null_msg).
Proof.
  split; [reflexivity|].
  split; [discriminate|].
  split; [discriminate|].
  intros p e. apply Ptr_ctor_Throw.
Qed.

(** C10 (as amended). [is_null] reports whether the held pointer is
    null and leaves the object unchanged: on a default-constructed [Ptr]
    it returns true; on a [Ptr] obtained from the pointer-taking
    constructor it returns false, and still does after any sequence of
    calls of the member functions the class declares ([operator*],
    [operator->], [get], [is_null]), all of which return and none of
    which changes the object.  Assigning another wrapper to it replaces
    the held pointer by that wrapper's, and [is_null] then reports that
    wrapper's state. *)
Theorem C10_is_null_reports_state
  (T : Type) (p : ptr T) (w other : fax_std.Ptr T) (cs : list Ptr_call) :
  fax_std.Ptr_ctor p = Ok w ->
  (forall w0 : fax_std.Ptr T,
      fax_std.is_null w0 = (Ok (ptr_is_nullptr (fax_std.data w0)), w0))
  /\ (forall w0 : fax_std.Ptr T,
        fax_std.Ptr_default = Ok w0 -> fax_std.is_null w0 = (Ok true, w0))
  /\ (forall (c : Ptr_call) (w0 : fax_std.Ptr T), snd (Ptr_run c w0) = w0)
  /\ fax_std.is_null w = (Ok false, w)
  /\ Ptr_calls cs w = (Ok tt, w)
  /\ (Ptr_calls cs ;; fax_std.is_null)%cpp w = (Ok false, w)
  /\ (fax_std.op_assign other ;; fax_std.is_null)%cpp w
     = (Ok (ptr_is_nullptr (fax_std.data other)), other).
Proof.
  intros [Hp ->]%Ptr_ctor_Ok.
  destruct p as [|l]; [now destruct Hp|].
  split; [reflexivity|].
  split; [intros w0 [= <-]; reflexivity|].
  split; [intros c w0; now apply (Ptr_run_frame c w0 (fst (Ptr_run c w0))), surjective_pairing|].
  split; [reflexivity|].
  split; [apply Ptr_calls_addr|].
  split; [unfold bind; now rewrite Ptr_calls_addr|].
  now destruct other as [q].
Qed.

Lemma C10_witness :
  (forall w0 : fax_std.Ptr Z,
      fax_std.is_null w0 = (Ok (ptr_is_nullptr (fax_std.data w0)), w0))
  /\ (forall w0 : fax_std.Ptr Z,
        fax_std.Ptr_default = Ok w0 -> fax_std.is_null w0 = (Ok true, w0))
  /\ (forall (c : Ptr_call) (w0 : fax_std.Ptr Z), snd (Ptr_run c w0) = w0)
  /\ fax_std.is_null (fax_std.Build_Ptr (@addr Z 7%positive))
     = (Ok false, fax_std.Build_Ptr (addr 7%positive))
  /\ Ptr_calls [CallStar; CallGet] (fax_std.Build_Ptr (@addr Z 7%positive))
     = (Ok tt, fax_std.Build_Ptr (addr 7%positive))
  /\ (Ptr_calls [CallStar; CallGet] ;; fax_std.is_null)%cpp
       (fax_std.Build_Ptr (@addr Z 7%positive))
     = (Ok false, fax_std.Build_Ptr (addr 7%positive))
  /\ (fax_std.op_assign (fax_std.Build_Ptr (@addr Z 9%positive)) ;;
      fax_std.is_null)%cpp (fax_std.Build_Ptr (@addr Z 7%positive))
     = (Ok (ptr_is_nullptr (fax_std.data (fax_std.Build_Ptr (@addr Z 9%positive)))),
        fax_std.Build_Ptr (addr 9%positive)).
Proof.
  apply (C10_is_null_reports_state Z (addr 7%positive)
           (fax_std.Build_Ptr (addr 7%positive))
           (fax_std.Build_Ptr (addr 9%positive)) [CallStar; CallGet]).
  reflexivity.
Defined.

(** C10 as first stated does not hold.  A wrapper constructed from a
    non-null pointer answers false to [is_null]; after a default-
    constructed wrapper is assigned to it, it answers true.  So it is
    not the case that [is_null] stays false under every operation. *)
Lemma C10_counterexample :
  fax_std.Ptr_ctor (@addr Z 1%positive) = Ok (fax_std.Build_Ptr (addr 1%positive))
  /\ @fax_std.Ptr_default Z = Ok (fax_std.Build_Ptr nullptr)
  /\ fax_std.is_null (fax_std.Build_Ptr (@addr Z 1%positive))
     = (Ok false, fax_std.Build_Ptr (addr 1%positive))
  /\ (fax_std.op_assign (fax_std.Build_Ptr nullptr) ;; fax_std.is_null)%cpp
       (fax_std.Build_Ptr (@addr Z 1%positive))
     = (Ok true, fax_std.Build_Ptr nullptr)
  /\ ~ (forall (p : ptr Z) (w other : fax_std.Ptr Z),
          fax_std.Ptr_ctor p = Ok w ->
          fst ((fax_std.op_assign other ;; fax_std.is_null)%cpp w) = Ok false).
Proof.
  split; [reflexivity|]. split; [reflexivity|].
  split; [reflexivity|]. split; [reflexivity|].
  intros H.
  specialize (H (addr 1%positive) (fax_std.Build_Ptr (addr 1%positive))
                (fax_std.Build_Ptr nullptr) eq_refl).
  discriminate H.
Qed.

(** ** Checked sequence *)

Section ArrayFacts.
Context {T : Type}.
Variable range_check_what : N -> N -> string.
Implicit Types (s : list T) (i : N) (x : T).

Lemma size_length s : fax_std.size s = N.of_nat (length s).
Proof. reflexivity. Qed.

(** The check of [std::vector::at] is never the one that fires: the
    guard in front of it has already thrown for every index it rejects. *)
Lemma op_index_out s i :
  (fax_std.size s <= i)%N ->
  fax_std.op_index range_check_what i s
  = (Throw (out_of_range fax_std.oob_msg), s).
Proof.
  intros Hi. unfold fax_std.op_index, bind, this.
  destruct (N.leb_spec (fax_std.size s) i) as [_|Hlt]; [reflexivity | lia].
Qed.

Lemma op_index_in s i :
  (i < fax_std.size s)%N ->
  fax_std.op_index range_check_what i s = (Ok (N.to_nat i), s).
Proof.
  intros Hi%N.leb_gt. unfold fax_std.op_index, fax_std.vector_at, bind, this.
  cbv beta iota. rewrite Hi. cbv beta iota. now rewrite Hi.
Qed.

Lemma op_index_const_out s i :
  (fax_std.size s <= i)%N ->
  fax_std.op_index_const range_check_what i s
  = (Throw (out_of_range fax_std.oob_msg), s).
Proof.
  intros Hi. unfold fax_std.op_index_const, bind, this.
  destruct (N.leb_spec (fax_std.size s) i) as [_|Hlt]; [reflexivity | lia].
Qed.

Lemma op_index_const_in s i :
  (i < fax_std.size s)%N ->
  fax_std.op_index_const range_check_what i s = (Ok (N.to_nat i), s).
Proof.
  intros Hi%N.leb_gt. unfold fax_std.op_index_const, fax_std.vector_at, bind, this.
  cbv beta iota. rewrite Hi. cbv beta iota. now rewrite Hi.
Qed.

Lemma index_in_lookup s i :
  (i < fax_std.size s)%N -> is_Some (s !! N.to_nat i).
Proof.
  rewrite size_length. intros Hi. apply lookup_lt_is_Some. lia.
Qed.

Lemma index_read_in s i x :
  s !! N.to_nat i = Some x ->
  index_read range_check_what i s = (Ok x, s).
Proof.
  intros Hx. assert (Hi : (i < fax_std.size s)%N).
  { apply lookup_lt_Some in Hx. rewrite size_length. lia. }
  unfold index_read, bind. rewrite (op_index_in _ _ Hi).
  unfold elem_load, bind, this. now rewrite Hx.
Qed.

Lemma index_read_const_in s i x :
  s !! N.to_nat i = Some x ->
  index_read_const range_check_what i s = (Ok x, s).
Proof.
  intros Hx. assert (Hi : (i < fax_std.size s)%N).
  { apply lookup_lt_Some in Hx. rewrite size_length. lia. }
  unfold index_read_const, bind. rewrite (op_index_const_in _ _ Hi).
  unfold elem_load, bind, this. now rewrite Hx.
Qed.

Lemma index_write_in s i x :
  (i < fax_std.size s)%N ->
  index_write range_check_what i x s = (Ok tt, <[N.to_nat i := x]> s).
Proof.
  intros Hi. unfold index_write, bind. rewrite (op_index_in _ _ Hi).
  unfold elem_store, bind, this, assign.
  rewrite size_length in Hi.
  destruct (Nat.ltb_spec (N.to_nat i) (length s)) as [_|Hge]; [reflexivity | lia].
Qed.

Lemma push_all_app (xs : list T) s :
  push_all xs s = (Ok tt, s ++ xs).
Proof.
  revert s. induction xs as [|x xs IH]; intros s; cbn [push_all].
  - unfold ret. now rewrite app_nil_r.
  - unfold bind at 1. unfold fax_std.push_back, bind, this, assign.
    rewrite IH. now rewrite <- app_assoc.
Qed.

Lemma read_range_in (count : nat) : forall (from : N) s,
  N.to_nat from + count <= length s ->
  read_range range_check_what from count s
  = (Ok (take count (drop (N.to_nat from) s)), s).
Proof.
  induction count as [|count IH]; intros from s Hlen; cbn [read_range].
  - reflexivity.
  - destruct (lookup_lt_is_Some_2 s (N.to_nat from)) as [x Hx]; [lia|].
    unfold bind at 1. rewrite (index_read_in _ _ _ Hx).
    unfold bind at 1. rewrite IH by lia.
    unfold ret. rewrite N2Nat.inj_succ.
    now rewrite (drop_S _ _ _ Hx).
Qed.
Lemma index_read_out s i :
  (fax_std.size s <= i)%N ->
  index_read range_check_what i s = (Throw (out_of_range fax_std.oob_msg), s).
Proof.
  intros Hi. unfold index_read, bind. now rewrite (op_index_out _ _ Hi).
Qed.

Lemma index_read_const_out s i :
  (fax_std.size s <= i)%N ->
  index_read_const range_check_what i s
  = (Throw (out_of_range fax_std.oob_msg), s).
Proof.
  intros Hi. unfold index_read_const, bind. now rewrite (op_index_const_out _ _ Hi).
Qed.

Lemma index_write_out s i x :
  (fax_std.size s <= i)%N ->
  index_write range_check_what i x s
  = (Throw (out_of_range fax_std.oob_msg), s).
Proof.
  intros Hi. unfold index_write, bind. now rewrite (op_index_out _ _ Hi).
Qed.

(** Whatever an indexed access throws is the runtime's own exception. *)
Lemma op_index_Throw s i e :
  fst (fax_std.op_index range_check_what i s) = Throw e ->
  e = out_of_range fax_std.oob_msg.
Proof.
  destruct (N.le_gt_cases (fax_std.size s) i) as [Hi|Hi].
  - rewrite (op_index_out _ _ Hi). now intros [= <-].
  - rewrite (op_index_in _ _ Hi). discriminate.
Qed.

Lemma op_index_const_Throw s i e :
  fst (fax_std.op_index_const range_check_what i s) = Throw e ->
  e = out_of_range fax_std.oob_msg.
Proof.
  destruct (N.le_gt_cases (fax_std.size s) i) as [Hi|Hi].
  - rewrite (op_index_const_out _ _ Hi). now intros [= <-].
  - rewrite (op_index_const_in _ _ Hi). discriminate.
Qed.

Lemma index_read_Throw s i e :
  fst (index_read range_check_what i s) = Throw e ->
  e = out_of_range fax_std.oob_msg.
Proof.
  destruct (N.le_gt_cases (fax_std.size s) i) as [Hi|Hi].
  - rewrite (index_read_out _ _ Hi). now intros [= <-].
  - destruct (index_in_lookup _ _ Hi) as [x Hx].
    rewrite (index_read_in _ _ _ Hx). discriminate.
Qed.

Lemma index_read_const_Throw s i e :
  fst (index_read_const range_check_what i s) = Throw e ->
  e = out_of_range fax_std.oob_msg.
Proof.
  destruct (N.le_gt_cases (fax_std.size s) i) as [Hi|Hi].
  - rewrite (index_read_const_out _ _ Hi). now intros [= <-].
  - destruct (index_in_lookup _ _ Hi) as [x Hx].
    rewrite (index_read_const_in _ _ _ Hx). discriminate.
Qed.

Lemma index_write_Throw s i x e :
  fst (index_write range_check_what i x s) = Throw e ->
  e = out_of_range fax_std.oob_msg.
Proof.
  destruct (N.le_gt_cases (fax_std.size s) i) as [Hi|Hi].
  - rewrite (index_write_out _ _ _ Hi). now intros [= <-].
  - rewrite (index_write_in _ _ _ Hi). discriminate.
Qed.
End ArrayFacts.

(** C2. For an index at or beyond the length, the indexed operator (on a
    mutable and on a const array), an indexed read through either, and
    an indexed write all raise the index error ([std::out_of_range] with
    the runtime's message) and leave the array as it was. *)
Theorem C2_out_of_range_access_raises
  (T : Type) (range_check_what : N -> N -> string)
  (s : list T) (i : N) (x : T) :
  (i >= fax_std.size s)%N ->
  fax_std.op_index range_check_what i s
    = (Throw (out_of_range fax_std.oob_msg), s)
  /\ fax_std.op_index_const range_check_what i s
    = (Throw (out_of_range fax_std.oob_msg), s)
  /\ index_read range_check_what i s
    = (Throw (out_of_range fax_std.oob_msg), s)
  /\ index_read_const range_check_what i s
    = (Throw (out_of_range fax_std.oob_msg), s)
  /\ index_write range_check_what i x s
    = (Throw (out_of_range fax_std.oob_msg), s).
Proof.
  intros Hi%N.ge_le.
  split; [now apply op_index_out|].
  split; [now apply op_index_const_out|].
  split; [now apply index_read_out|].
  split; [now apply index_read_const_out | now apply index_write_out].
Qed.

Lemma C2_witness :
  fax_std.op_index (fun _ _ => "vector::at") 3%N [10%Z; 20%Z; 30%Z]
    = (Throw (out_of_range fax_std.oob_msg), [10%Z; 20%Z; 30%Z])
  /\ fax_std.op_index_const (fun _ _ => "vector::at") 3%N [10%Z; 20%Z; 30%Z]
    = (Throw (out_of_range fax_std.oob_msg), [10%Z; 20%Z; 30%Z])
  /\ index_read (fun _ _ => "vector::at") 3%N [10%Z; 20%Z; 30%Z]
    = (Throw (out_of_range fax_std.oob_msg), [10%Z; 20%Z; 30%Z])
  /\ index_read_const (fun _ _ => "vector::at") 3%N [10%Z; 20%Z; 30%Z]
    = (Throw (out_of_range fax_std.oob_msg), [10%Z; 20%Z; 30%Z])
  /\ index_write (fun _ _ => "vector::at") 3%N 99%Z [10%Z; 20%Z; 30%Z]
    = (Throw (out_of_range fax_std.oob_msg), [10%Z; 20%Z; 30%Z]).
Proof.
  apply (C2_out_of_range_access_raises Z (fun _ _ => "vector::at")
           [10%Z; 20%Z; 30%Z] 3%N 99%Z).
  vm_compute. discriminate.
Defined.

(** C4. For an index below the length, an indexed read (mutable or const
    path) returns the element at that position, where positions follow
    the order of appending, and leaves the array unchanged; an indexed
    write returns, keeps the length, puts the new value at that position
    and leaves every other position as it was. *)
Theorem C4_in_range_access
  (T : Type) (range_check_what : N -> N -> string)
  (s : list T) (i : N) (v : T) :
  (0 <= i < fax_std.size s)%N ->
  push_all s [] = (Ok tt, s)
  /\ exists x : T,
      s !! N.to_nat i = Some x
      /\ index_read range_check_what i s = (Ok x, s)
      /\ index_read_const range_check_what i s = (Ok x, s)
      /\ exists s' : list T,
          index_write range_check_what i v s = (Ok tt, s')
          /\ length s' = length s
          /\ s' !! N.to_nat i = Some v
          /\ (forall j : nat, j <> N.to_nat i -> s' !! j = s !! j)
          /\ index_read range_check_what i s' = (Ok v, s').
Proof.
  intros [_ Hi]. split; [apply push_all_app|].
  destruct (index_in_lookup _ _ Hi) as [x Hx]. exists x.
  split; [exact Hx|].
  split; [now apply index_read_in|].
  split; [now apply index_read_const_in|].
  exists (<[N.to_nat i := v]> s).
  assert (Hv : <[N.to_nat i := v]> s !! N.to_nat i = Some v).
  { apply list_lookup_insert_eq. now apply lookup_lt_Some in Hx. }
  split; [now apply index_write_in|].
  split; [apply length_insert|].
  split; [exact Hv|].
  split; [|now apply index_read_in].
  intros j Hj. now apply list_lookup_insert_ne.
Qed.

Lemma C4_witness :
  push_all [10%Z; 20%Z; 30%Z] [] = (Ok tt, [10%Z; 20%Z; 30%Z])
  /\ exists x : Z,
      [10%Z; 20%Z; 30%Z] !! N.to_nat 1 = Some x
      /\ index_read (fun _ _ => "vector::at") 1%N [10%Z; 20%Z; 30%Z]
         = (Ok x, [10%Z; 20%Z; 30%Z])
      /\ index_read_const (fun _ _ => "vector::at") 1%N [10%Z; 20%Z; 30%Z]
         = (Ok x, [10%Z; 20%Z; 30%Z])
      /\ exists s' : list Z,
          index_write (fun _ _ => "vector::at") 1%N 99%Z [10%Z; 20%Z; 30%Z]
          = (Ok tt, s')
          /\ length s' = length [10%Z; 20%Z; 30%Z]
          /\ s' !! N.to_nat 1 = Some 99%Z
          /\ (forall j : nat,
                j <> N.to_nat 1 -> s' !! j = [10%Z; 20%Z; 30%Z] !! j)
          /\ index_read (fun _ _ => "vector::at") 1%N s' = (Ok 99%Z, s').
Proof.
  apply (C4_in_range_access Z (fun _ _ => "vector::at")
           [10%Z; 20%Z; 30%Z] 1%N 99%Z).
  vm_compute. split; [discriminate | reflexivity].
Defined.

(** C7. Appending the values [xs] one by one to an empty array and then
    reading the indices 0 to N-1 in turn, N being their number, returns
    exactly [xs], in order; each single read at a position below N
    returns the value appended at that position (and a read at any other
    position raises the index error). *)
Theorem C7_append_then_read_back
  (T : Type) (range_check_what : N -> N -> string) (xs : list T) :
  @fax_std.Array_default T = Ok []
  /\ (push_all xs ;; read_range range_check_what 0%N (length xs))%cpp []
     = (Ok xs, xs)
  /\ (forall k : nat,
        (push_all xs ;; index_read range_check_what (N.of_nat k))%cpp []
        = (match xs !! k with
           | Some x => Ok x
           | None => Throw (out_of_range fax_std.oob_msg)
           end, xs)).
Proof.
  split; [reflexivity|].
  split.
  - unfold bind at 1. rewrite push_all_app, app_nil_l.
    rewrite read_range_in by (cbn; lia).
    cbn [N.to_nat drop]. now rewrite firstn_all.
  - intros k. unfold bind at 1. rewrite push_all_app, app_nil_l.
    destruct (xs !! k) as [x|] eqn:Hk.
    + apply index_read_in. now rewrite Nat2N.id.
    + apply index_read_out. apply lookup_ge_None in Hk.
      rewrite size_length. lia.
Qed.

(** ** The two errors *)

(** C9. Every error raised by constructing a [Ptr] and every error
    raised by an indexed access of an [Array] (the operator on either
    path, a read or a write) carries a fixed message: the first always
    the null-pointer text, the second always the index-out-of-bounds
    text, never the text of the standard library's own range check.
    The two messages differ, the two exceptions differ, and both
    messages start with the language's name. *)
Theorem C9_error_kinds_distinguishable
  (T U : Type) (range_check_what : N -> N -> string)
  (p : ptr T) (s : list U) (i : N) (x : U) (e1 e2 : exception) :
  fax_std.Ptr_ctor p = Throw e1 ->
  fst (fax_std.op_index range_check_what i s) = Throw e2
  \/ fst (fax_std.op_index_const range_check_what i s) = Throw e2
  \/ fst (index_read range_check_what i s) = Throw e2
  \/ fst (index_read_const range_check_what i s) = Throw e2
  \/ fst (index_write range_check_what i x s) = Throw e2 ->
  e1 = runtime_error fax_std.null_msg
  /\ e2 = out_of_range fax_std.oob_msg
  /\ what e1 = "Fax-lang: Null pointer access attempt"
  /\ what e2 = "Fax-lang: Array index out of bounds"
  /\ what e1 <> what e2
  /\ e1 <> e2
  /\ String.prefix "Fax-lang: " (what e1) = true
  /\ String.prefix "Fax-lang: " (what e2) = true.
Proof.
  intros [_ ->]%Ptr_ctor_Throw He2.
  assert (e2 = out_of_range fax_std.oob_msg) as ->.
  { destruct He2 as [H|[H|[H|[H|H]]]].
    - exact (op_index_Throw _ _ _ _ H).
    - exact (op_index_const_Throw _ _ _ _ H).
    - exact (index_read_Throw _ _ _ _ H).
    - exact (index_read_const_Throw _ _ _ _ H).
    - exact (index_write_Throw _ _ _ _ _ H). }
  repeat split; try reflexivity; discriminate.
Qed.

Lemma C9_witness :
  runtime_error fax_std.null_msg = runtime_error fax_std.null_msg
  /\ out_of_range fax_std.oob_msg = out_of_range fax_std.oob_msg
  /\ what (runtime_error fax_std.null_msg)
     = "Fax-lang: Null pointer access attempt"
  /\ what (out_of_range fax_std.oob_msg)
     = "Fax-lang: Array index out of bounds"
  /\ what (runtime_error fax_std.null_msg) <> what (out_of_range fax_std.oob_msg)
  /\ runtime_error fax_std.null_msg <> out_of_range fax_std.oob_msg
  /\ String.prefix "Fax-lang: " (what (runtime_error fax_std.null_msg)) = true
  /\ String.prefix "Fax-lang: " (what (out_of_range fax_std.oob_msg)) = true.
Proof.
  apply (C9_error_kinds_distinguishable Z Z (fun _ _ => "vector::at")
           nullptr [10%Z; 20%Z] 5%N 0%Z
           (runtime_error fax_std.null_msg) (out_of_range fax_std.oob_msg)).
  - reflexivity.
  - left. reflexivity.
Defined.

(** ** Output *)

Lemma append_assoc (a b c : string) : (a +:+ b) +:+ c = a +:+ (b +:+ c).
Proof.
  induction a as [|ch a IH]; [reflexivity|].
  change (String ch ((a +:+ b) +:+ c) = String ch (a +:+ (b +:+ c))).
  now rewrite IH.
Qed.

Lemma println_concat (args : list fax_std.arg) :
  forall (first : fax_std.arg) (cout : string),
    fax_std.println first args cout
    = cout +:+ String.concat " " (map fax_std.text (first :: args))
           +:+ fax_std.newline.
Proof.
  induction args as [|next rest IH]; intros first cout.
  - cbn. unfold fax_std.put_endl, fax_std.put. apply append_assoc.
  - cbn [fax_std.println]. rewrite IH. unfold fax_std.put.
    cbn [map String.concat]. now rewrite !append_assoc.
Qed.

(** C5. A call of [println] with at least one argument appends to
    standard output the texts of its arguments in order, joined by
    single spaces, followed by one newline, and nothing else; so
    [println(1, "x", 2)] writes [1 x 2] and a newline. *)
Theorem C5_println_joins_with_spaces
  (first : fax_std.arg) (args : list fax_std.arg) (cout : string) :
  fax_std.println first args cout
  = cout +:+ String.concat " " (map fax_std.text (first :: args))
         +:+ fax_std.newline
  /\ call_println (first :: args) cout = fax_std.println first args cout
  /\ call_println [fax_std.Arg 1%Z; fax_std.Arg "x"; fax_std.Arg 2%Z] ""
     = "1 x 2" +:+ fax_std.newline.
Proof.
  split; [apply println_concat|]. split; reflexivity.
Qed.

(** C6. A call of [println] without arguments appends exactly one
    newline character to standard output. *)
Theorem C6_println_no_arguments (cout : string) :
  fax_std.println_0 cout = cout +:+ fax_std.newline
  /\ call_println [] cout = cout +:+ fax_std.newline
  /\ call_println [] "" = String (ascii_of_nat 10) EmptyString
  /\ String.length fax_std.newline = 1.
Proof.
  repeat split.
Qed.

(** * Further properties *)

(** ** Checked indirection: the held pointer *)

(** X1. A wrapper returned by the pointer-taking constructor holds the
    very pointer it was given, which is not null: [get] and [operator->]
    both return it, [operator*] designates its referent, and none of the
    three changes the wrapper. *)
Theorem Ptr_get_returns_constructor_argument
  (T : Type) (p : ptr T) (w : fax_std.Ptr T) :
  fax_std.Ptr_ctor p = Ok w ->
  p <> nullptr
  /\ fax_std.get w = (Ok p, w)
  /\ fax_std.op_arrow w = (Ok p, w)
  /\ exists l : loc, p = addr l /\ fax_std.op_star w = (Ok l, w).
Proof.
  intros [Hp ->]%Ptr_ctor_Ok.
  destruct p as [|l]; [now destruct Hp|].
  split; [exact Hp|]. split; [reflexivity|]. split; [reflexivity|].
  exists l. split; reflexivity.
Qed.

Lemma Ptr_get_returns_constructor_argument_witness :
  @addr Z 5%positive <> nullptr
  /\ fax_std.get (fax_std.Build_Ptr (@addr Z 5%positive))
     = (Ok (addr 5%positive), fax_std.Build_Ptr (addr 5%positive))
  /\ fax_std.op_arrow (fax_std.Build_Ptr (@addr Z 5%positive))
     = (Ok (addr 5%positive), fax_std.Build_Ptr (addr 5%positive))
  /\ exists l : loc,
      @addr Z 5%positive = addr l
      /\ fax_std.op_star (fax_std.Build_Ptr (@addr Z 5%positive))
         = (Ok l, fax_std.Build_Ptr (addr 5%positive)).
Proof.
  apply (Ptr_get_returns_constructor_argument Z (addr 5%positive)
           (fax_std.Build_Ptr (addr 5%positive))).
  reflexivity.
Defined.

(** X2. Wrapping again the pointer that a wrapper holds succeeds exactly
    when [is_null] answers false, and then yields an equal wrapper; when
    [is_null] answers true (as after default construction) it raises the
    null-pointer error.  Either way the first wrapper is unchanged. *)
Theorem Ptr_rewrap_follows_is_null (T : Type) (w : fax_std.Ptr T) :
  exists b : bool,
    fax_std.is_null w = (Ok b, w)
    /\ rewrap w
       = (if b then Throw (runtime_error fax_std.null_msg) else Ok w, w).
Proof.
  destruct w as [[|l]].
  - exists true. split; reflexivity.
  - exists false. split; reflexivity.
Qed.

(** X3. [operator*] performs no check of its own: it never throws and
    never changes the wrapper.  Reading through it yields a value
    exactly when the held pointer is the address of a live object; it is
    undefined otherwise, that is whenever [is_null] answers true (in
    particular on every default-constructed wrapper) and also when the
    held pointer is not null but its referent is no longer alive. *)
Theorem Ptr_dereference_is_unchecked
  (T : Type) (h : gmap loc T) (w : fax_std.Ptr T) :
  (forall e : exception, fst (fax_std.op_star w) <> Throw e)
  /\ snd (fax_std.op_star w) = w
  /\ (forall e : exception, fst (deref h w) <> Throw e)
  /\ snd (deref h w) = w
  /\ (forall v : T,
        fst (deref h w) = Ok v <->
        exists l : loc, fax_std.data w = addr l /\ h !! l = Some v)
  /\ (fst (deref h w) = Undef <->
      fax_std.data w = nullptr
      \/ exists l : loc, fax_std.data w = addr l /\ h !! l = None)
  /\ (fst (fax_std.is_null w) = Ok true -> fst (deref h w) = Undef)
  /\ (forall w0 : fax_std.Ptr T,
        fax_std.Ptr_default = Ok w0 -> deref h w0 = (Undef, w0)).
Proof.
  destruct w as [[|l]].
  - cbn. split; [discriminate|]. split; [reflexivity|].
    split; [discriminate|]. split; [reflexivity|].
    split.
    { intros v. split; [discriminate | intros (l & Hl & _); discriminate]. }
    split; [split; [now left | reflexivity]|].
    split; [reflexivity|]. now intros w0 [= <-].
  - unfold deref, bind, fax_std.op_star, this, ret, load. cbn.
    split; [discriminate|]. split; [reflexivity|].
    split; [destruct (h !! l); discriminate|].
    split; [destruct (h !! l); reflexivity|].
    split.
    { intros v. split.
      - destruct (h !! l) as [v0|] eqn:Hl; [|discriminate].
        intros [= ->]. now exists l.
      - intros (l' & [= <-] & Hl'). now rewrite Hl'. }
    split.
    { split.
      - destruct (h !! l) as [v0|] eqn:Hl; [discriminate|].
        intros _. right. now exists l.
      - intros [Hn | (l' & [= <-] & Hl')]; [discriminate|]. now rewrite Hl'. }
    split; [discriminate|]. now intros w0 [= <-].
Qed.

(** X4. The wrapper does not copy its referent: assigning through a
    wrapper made from a non-null pointer with a live referent changes
    that referent, so that reading through the raw pointer or through
    the wrapper then gives the new value; every other object, and the
    wrapper itself, stay as they were. *)
Theorem Ptr_write_through_reaches_referent
  (T : Type) (h : gmap loc T) (r : ptr T) (v v' : T) :
  r <> nullptr ->
  raw_deref h r = Ok v ->
  exists (w : fax_std.Ptr T) (l : loc) (h' : gmap loc T),
    fax_std.Ptr_ctor r = Ok w
    /\ r = addr l
    /\ deref_assign h v' w = (Ok h', w)
    /\ raw_deref h' r = Ok v'
    /\ deref h' w = (Ok v', w)
    /\ forall l' : loc, l' <> l -> h' !! l' = h !! l'.
Proof.
  intros Hr Hv. destruct r as [|l]; [now destruct Hr|].
  cbn in Hv. unfold load in Hv.
  destruct (h !! l) as [v0|] eqn:Hl; [|discriminate].
  exists (fax_std.Build_Ptr (addr l)), l, (<[l := v']> h).
  split; [reflexivity|]. split; [reflexivity|].
  split.
  { unfold deref_assign, bind, fax_std.op_star, this, ret, store. cbn.
    now rewrite Hl. }
  split.
  { cbn. unfold load. now rewrite lookup_insert_eq. }
  split.
  { unfold deref, bind, fax_std.op_star, this, ret, load. cbn.
    now rewrite lookup_insert_eq. }
  intros l' Hl'. now apply lookup_insert_ne.
Qed.

Lemma Ptr_write_through_reaches_referent_witness :
  exists (w : fax_std.Ptr Z) (l : loc) (h' : gmap loc Z),
    fax_std.Ptr_ctor (addr 1%positive) = Ok w
    /\ @addr Z 1%positive = addr l
    /\ deref_assign {[ 1%positive := 42%Z ]} 7%Z w = (Ok h', w)
    /\ raw_deref h' (addr 1%positive) = Ok 7%Z
    /\ deref h' w = (Ok 7%Z, w)
    /\ forall l' : loc, l' <> l -> h' !! l' = ({[ 1%positive := 42%Z ]} : gmap loc Z) !! l'.
Proof.
  apply (Ptr_write_through_reaches_referent Z {[ 1%positive := 42%Z ]}
           (addr 1%positive) 42%Z 7%Z).
  - discriminate.
  - reflexivity.
Defined.

(** ** Checked sequence: total behaviour and composition *)

Section ArrayLaws.
Context {T : Type}.
Variable range_check_what : N -> N -> string.
Implicit Types (s : list T) (i j : N) (x v u : T).

Lemma index_read_total s i :
  index_read range_check_what i s
  = (match s !! N.to_nat i with
     | Some x => Ok x
     | None => Throw (out_of_range fax_std.oob_msg)
     end, s).
Proof.
  destruct (s !! N.to_nat i) as [x|] eqn:Hx.
  - now apply index_read_in.
  - apply index_read_out. apply lookup_ge_None in Hx.
    rewrite size_length. lia.
Qed.

Lemma index_read_const_total s i :
  index_read_const range_check_what i s
  = (match s !! N.to_nat i with
     | Some x => Ok x
     | None => Throw (out_of_range fax_std.oob_msg)
     end, s).
Proof.
  destruct (s !! N.to_nat i) as [x|] eqn:Hx.
  - now apply index_read_const_in.
  - apply index_read_const_out. apply lookup_ge_None in Hx.
    rewrite size_length. lia.
Qed.

Lemma op_index_total s i :
  fax_std.op_index range_check_what i s
  = (if (i <? fax_std.size s)%N
     then Ok (N.to_nat i)
     else Throw (out_of_range fax_std.oob_msg), s).
Proof.
  destruct (N.ltb_spec i (fax_std.size s)) as [Hi|Hi].
  - now apply op_index_in.
  - now apply op_index_out.
Qed.

Lemma op_index_const_total s i :
  fax_std.op_index_const range_check_what i s
  = (if (i <? fax_std.size s)%N
     then Ok (N.to_nat i)
     else Throw (out_of_range fax_std.oob_msg), s).
Proof.
  destruct (N.ltb_spec i (fax_std.size s)) as [Hi|Hi].
  - now apply op_index_const_in.
  - now apply op_index_const_out.
Qed.

Lemma index_write_total s i x :
  index_write range_check_what i x s
  = if (i <? fax_std.size s)%N
    then (Ok tt, <[N.to_nat i := x]> s)
    else (Throw (out_of_range fax_std.oob_msg), s).
Proof.
  destruct (N.ltb_spec i (fax_std.size s)) as [Hi|Hi].
  - now apply index_write_in.
  - now apply index_write_out.
Qed.

Lemma size_insert s (k : nat) x : fax_std.size (<[k := x]> s) = fax_std.size s.
Proof. unfold fax_std.size. now rewrite length_insert. Qed.
End ArrayLaws.

(** X5. An indexed access has no other outcome than returning or
    raising the index error, and only a successful write changes the
    array.  On both paths the operator returns a reference to the
    element at the index when the index is below the size and raises
    the index error otherwise; a reference it returns always designates
    an existing element; a read returns that element or raises the
    index error; a write stores at that position or raises the index
    error, leaving the array as it was.  Undefined behaviour and any
    other exception are excluded. *)
Theorem Array_access_is_never_undefined
  (T : Type) (range_check_what : N -> N -> string)
  (s : list T) (i : N) (x : T) :
  fax_std.op_index range_check_what i s
    = (if (i <? fax_std.size s)%N
       then Ok (N.to_nat i)
       else Throw (out_of_range fax_std.oob_msg), s)
  /\ fax_std.op_index_const range_check_what i s
    = fax_std.op_index range_check_what i s
  /\ (forall r : nat,
        fst (fax_std.op_index range_check_what i s) = Ok r ->
        r = N.to_nat i /\ is_Some (s !! r))
  /\ index_read range_check_what i s
    = (match s !! N.to_nat i with
       | Some y => Ok y
       | None => Throw (out_of_range fax_std.oob_msg)
       end, s)
  /\ index_read_const range_check_what i s
    = index_read range_check_what i s
  /\ index_write range_check_what i x s
    = (if (i <? fax_std.size s)%N
       then (Ok tt, <[N.to_nat i := x]> s)
       else (Throw (out_of_range fax_std.oob_msg), s))
  /\ fst (fax_std.op_index range_check_what i s) <> Undef
  /\ fst (index_read range_check_what i s) <> Undef
  /\ fst (index_write range_check_what i x s) <> Undef.
Proof.
  rewrite op_index_const_total, index_read_const_total.
  rewrite !op_index_total, !index_read_total, !index_write_total.
  split; [reflexivity|]. split; [reflexivity|].
  split.
  { intros r. destruct (N.ltb_spec i (fax_std.size s)) as [Hi|Hi]; [|discriminate].
    intros [= <-]. split; [reflexivity | now apply index_in_lookup]. }
  split; [reflexivity|]. split; [reflexivity|]. split; [reflexivity|].
  split; [now destruct (i <? fax_std.size s)%N|].
  split; [now destruct (s !! N.to_nat i)|].
  now destruct (i <? fax_std.size s)%N.
Qed.

(** X6. [push_back] makes exactly one more index valid: the index equal
    to the old size raises the index error before the call and reads the
    appended value after it, the size grows by one, and every index
    that was valid before still reads what it read before. *)
Theorem Array_push_back_then_read
  (T : Type) (range_check_what : N -> N -> string) (s : list T) (x : T) :
  index_read range_check_what (fax_std.size s) s
    = (Throw (out_of_range fax_std.oob_msg), s)
  /\ (fax_std.push_back x ;; index_read range_check_what (fax_std.size s))%cpp s
    = (Ok x, s ++ [x])
  /\ snd (fax_std.push_back x s) = s ++ [x]
  /\ fax_std.size (s ++ [x]) = N.succ (fax_std.size s)
  /\ (forall i : N,
        (i < fax_std.size s)%N ->
        (fax_std.push_back x ;; index_read range_check_what i)%cpp s
        = (fst (index_read range_check_what i s), s ++ [x])).
Proof.
  split; [apply index_read_out; lia|].
  split.
  { unfold bind at 1. cbn. apply index_read_in.
    unfold fax_std.size. rewrite Nat2N.id. apply list_lookup_middle. reflexivity. }
  split; [reflexivity|].
  split; [unfold fax_std.size; rewrite length_app; cbn; lia|].
  intros i Hi. unfold bind at 1. cbn.
  destruct (index_in_lookup _ _ Hi) as [y Hy].
  rewrite (index_read_in range_check_what _ _ _ Hy). cbn.
  apply index_read_in. rewrite lookup_app_l; [exact Hy|].
  now apply lookup_lt_Some in Hy.
Qed.

(** X7. Writes at valid indices compose as array updates: of two writes
    at the same index the later one wins; writes at different indices
    can be swapped; and a write at one index does not change what a
    read at another index returns. *)
Theorem Array_writes_compose
  (T : Type) (range_check_what : N -> N -> string)
  (s : list T) (i j : N) (v u : T) :
  (i < fax_std.size s)%N ->
  (j < fax_std.size s)%N ->
  (index_write range_check_what i v ;; index_write range_check_what i u)%cpp s
    = index_write range_check_what i u s
  /\ (i <> j ->
      (index_write range_check_what i v ;; index_write range_check_what j u)%cpp s
      = (index_write range_check_what j u ;; index_write range_check_what i v)%cpp s)
  /\ (i <> j ->
      (index_write range_check_what i v ;; index_read range_check_what j)%cpp s
      = (fst (index_read range_check_what j s), <[N.to_nat i := v]> s)).
Proof.
  intros Hi Hj.
  assert (Hi' : forall k y, (i < fax_std.size (<[k := y]> s))%N)
    by (intros; now rewrite size_insert).
  assert (Hj' : forall k y, (j < fax_std.size (<[k := y]> s))%N)
    by (intros; now rewrite size_insert).
  split; [|split].
  - unfold bind. rewrite (index_write_in _ _ _ v Hi).
    rewrite (index_write_in _ _ _ u (Hi' _ _)), (index_write_in _ _ _ u Hi).
    now rewrite list_insert_insert_eq.
  - intros Hne. unfold bind.
    rewrite (index_write_in _ _ _ v Hi), (index_write_in _ _ _ u Hj).
    rewrite (index_write_in _ _ _ u (Hj' _ _)), (index_write_in _ _ _ v (Hi' _ _)).
    f_equal. apply list_insert_insert_ne. lia.
  - intros Hne. unfold bind. rewrite (index_write_in _ _ _ v Hi).
    rewrite !index_read_total. cbn.
    rewrite list_lookup_insert_ne by lia. reflexivity.
Qed.

Lemma Array_writes_compose_witness :
  (index_write (fun _ _ => "vector::at") 0%N 7%Z ;;
   index_write (fun _ _ => "vector::at") 0%N 8%Z)%cpp [1%Z; 2%Z; 3%Z]
    = index_write (fun _ _ => "vector::at") 0%N 8%Z [1%Z; 2%Z; 3%Z]
  /\ (0%N <> 2%N ->
      (index_write (fun _ _ => "vector::at") 0%N 7%Z ;;
       index_write (fun _ _ => "vector::at") 2%N 8%Z)%cpp [1%Z; 2%Z; 3%Z]
      = (index_write (fun _ _ => "vector::at") 2%N 8%Z ;;
         index_write (fun _ _ => "vector::at") 0%N 7%Z)%cpp [1%Z; 2%Z; 3%Z])
  /\ (0%N <> 2%N ->
      (index_write (fun _ _ => "vector::at") 0%N 7%Z ;;
       index_read (fun _ _ => "vector::at") 2%N)%cpp [1%Z; 2%Z; 3%Z]
      = (fst (index_read (fun _ _ => "vector::at") 2%N [1%Z; 2%Z; 3%Z]),
         <[N.to_nat 0 := 7%Z]> [1%Z; 2%Z; 3%Z])).
Proof.
  apply (Array_writes_compose Z (fun _ _ => "vector::at")
           [1%Z; 2%Z; 3%Z] 0%N 2%N 7%Z 8%Z).
  - reflexivity.
  - reflexivity.
Defined.

(** X8. A failed access ends the sequence it is part of but undoes
    nothing: when a write at a valid index is followed by a write at an
    index out of range, the index error comes out and the first write
    is still in the array; in the other order the error comes out with
    the array untouched, the second write never taking place. *)
Theorem Array_failed_access_keeps_earlier_writes
  (T : Type) (range_check_what : N -> N -> string)
  (s : list T) (i j : N) (v u : T) :
  (i < fax_std.size s)%N ->
  (j >= fax_std.size s)%N ->
  (index_write range_check_what i v ;; index_write range_check_what j u)%cpp s
    = (Throw (out_of_range fax_std.oob_msg), <[N.to_nat i := v]> s)
  /\ (index_write range_check_what j u ;; index_write range_check_what i v)%cpp s
    = (Throw (out_of_range fax_std.oob_msg), s).
Proof.
  intros Hi Hj%N.ge_le. split; unfold bind.
  - rewrite (index_write_in _ _ _ v Hi).
    apply index_write_out. now rewrite size_insert.
  - now rewrite (index_write_out _ _ _ u Hj).
Qed.

Lemma Array_failed_access_keeps_earlier_writes_witness :
  (index_write (fun _ _ => "vector::at") 1%N 7%Z ;;
   index_write (fun _ _ => "vector::at") 3%N 8%Z)%cpp [1%Z; 2%Z; 3%Z]
    = (Throw (out_of_range fax_std.oob_msg), <[N.to_nat 1 := 7%Z]> [1%Z; 2%Z; 3%Z])
  /\ (index_write (fun _ _ => "vector::at") 3%N 8%Z ;;
      index_write (fun _ _ => "vector::at") 1%N 7%Z)%cpp [1%Z; 2%Z; 3%Z]
    = (Throw (out_of_range fax_std.oob_msg), [1%Z; 2%Z; 3%Z]).
Proof.
  apply (Array_failed_access_keeps_earlier_writes Z (fun _ _ => "vector::at")
           [1%Z; 2%Z; 3%Z] 1%N 3%N 7%Z 8%Z).
  - reflexivity.
  - vm_compute. discriminate.
Defined.

(** X9. An array constructed from a range holds the elements of the
    range in order: it equals the array obtained by appending them one
    by one to an empty array, its size is their number, reading the
    indices from 0 up returns the range, and on an array made from an
    empty range (as on a default-constructed one) every indexed read
    raises the index error. *)
Theorem Array_range_constructor_round_trip
  (T : Type) (range_check_what : N -> N -> string) (elems : list T) :
  exists s : list T,
    fax_std.Array_range elems = Ok s
    /\ push_all elems [] = (Ok tt, s)
    /\ fax_std.size s = N.of_nat (length elems)
    /\ read_range range_check_what 0%N (length elems) s = (Ok elems, s)
    /\ (forall k : nat,
          fst (index_read range_check_what (N.of_nat k) s)
          = match elems !! k with
            | Some x => Ok x
            | None => Throw (out_of_range fax_std.oob_msg)
            end)
    /\ fax_std.Array_range [] = @fax_std.Array_default T
    /\ (forall i : N,
          index_read range_check_what i (@nil T)
          = (Throw (out_of_range fax_std.oob_msg), [])).
Proof.
  exists elems. split; [reflexivity|].
  split; [apply push_all_app|].
  split; [reflexivity|].
  split.
  { rewrite read_range_in by (cbn; lia). cbn [N.to_nat drop].
    now rewrite firstn_all. }
  split.
  { intros k. rewrite index_read_total. cbn. now rewrite Nat2N.id. }
  split; [reflexivity|].
  intros i. apply index_read_out. apply N.le_0_l.
Qed.

(** ** Output: both overloads, [print_item], and calls in sequence *)

Lemma length_append (a b : string) :
  String.length (a +:+ b) = String.length a + String.length b.
Proof.
  induction a as [|ch a IH]; [reflexivity|].
  change (S (String.length (a +:+ b)) = S (String.length a + String.length b)).
  now rewrite IH.
Qed.

Lemma text_length_cons (a : fax_std.arg) (l : list fax_std.arg) :
  text_length (a :: l) = String.length (fax_std.text a) + text_length l.
Proof. reflexivity. Qed.

Lemma call_println_concat (actuals : list fax_std.arg) (cout : string) :
  call_println actuals cout
  = cout +:+ String.concat " " (map fax_std.text actuals) +:+ fax_std.newline.
Proof.
  destruct actuals as [|first args]; [reflexivity|]. apply println_concat.
Qed.

Lemma println_length (args : list fax_std.arg) :
  forall (first : fax_std.arg) (cout : string),
    String.length (fax_std.println first args cout)
    = String.length cout + text_length (first :: args) + S (length args).
Proof.
  induction args as [|next rest IH]; intros first cout.
  - cbn [fax_std.println]. unfold fax_std.put_endl, fax_std.put.
    rewrite !length_append, text_length_cons. cbn. lia.
  - cbn [fax_std.println]. rewrite IH. unfold fax_std.put.
    rewrite !length_append, !text_length_cons. cbn. lia.
Qed.

(** X10. A call of [println] adds to the output the characters of its
    arguments' texts and, besides them, as many characters as it has
    arguments (the spaces and the newline), or one (the newline) when it
    has none. *)
Theorem println_output_length (actuals : list fax_std.arg) (cout : string) :
  String.length (call_println actuals cout)
  = String.length cout + text_length actuals + Nat.max 1 (length actuals).
Proof.
  destruct actuals as [|first args].
  - cbn [call_println]. unfold fax_std.println_0, fax_std.put_endl.
    rewrite length_append. cbn. lia.
  - cbn [call_println]. rewrite println_length. cbn [length]. lia.
Qed.

(** X11. [println] writes what the same arguments passed one at a time
    to [print_item] write, with a space sent before each argument but
    the first and a newline sent at the end. *)
Theorem println_agrees_with_print_item
  (first : fax_std.arg) (args : list fax_std.arg) (cout : string) :
  fax_std.println first args cout = print_items_spaced first args cout.
Proof.
  revert first cout. induction args as [|next rest IH]; intros first cout.
  - reflexivity.
  - cbn [fax_std.println]. rewrite IH. reflexivity.
Qed.

(** X12. Calls of [println] made one after the other leave their lines
    on the output in the order of the calls, each line complete before
    the next begins, after whatever was written before. *)
Theorem println_calls_in_order (first_call second_call : list fax_std.arg) (cout : string) :
  call_println second_call (call_println first_call cout)
  = cout
    +:+ (String.concat " " (map fax_std.text first_call) +:+ fax_std.newline)
    +:+ (String.concat " " (map fax_std.text second_call) +:+ fax_std.newline).
Proof.
  rewrite !call_println_concat. now rewrite !append_assoc.
Qed.
